(** * The node store and the store context of lightning-terminal

    A shallow embedding of [app/src/store/stores/nodeStore.ts] (the class
    [NodeStore]) and of the store context module ([StoreProvider], [useStore],
    [useActions]), with the properties of the written specification that
    concern them. *)

From Stdlib Require Import ZArith List String Ascii Bool Lia Permutation Sorted.
Import ListNotations.

Local Open Scope string_scope.
Local Open Scope Z_scope.

(** ** JavaScript values used by the store *)

Module JS.

(** A value of static type [string] that may be [undefined] at run time
    (a field read from an object that does not carry it). *)
Definition jsstring := option string.

(** Truthiness of a string: only the empty string is falsy. *)
Definition truthy (s : string) : bool :=
  match s with
  | EmptyString => false
  | String _ _ => true
  end.

(** Truthiness of a string that may be [undefined]. *)
Definition truthy_opt (v : jsstring) : bool :=
  match v with
  | None => false
  | Some s => truthy s
  end.

(** [s.split(sep)] for a separator of one character: the pieces of [s]
    between the occurrences of [sep], in order. The result always has at
    least one piece; [''.split('@')] is [['']]. *)
Fixpoint split (sep : ascii) (s : string) : list string :=
  match s with
  | EmptyString => [EmptyString]
  | String c rest =>
      if Ascii.eqb c sep then EmptyString :: split sep rest
      else match split sep rest with
           | piece :: pieces => String c piece :: pieces
           | [] => [String c EmptyString]
           end
  end.

(** [s.includes(c)] for one character. *)
Fixpoint includes_char (c : ascii) (s : string) : bool :=
  match s with
  | EmptyString => false
  | String d rest => Ascii.eqb d c || includes_char c rest
  end.

(** [arr.includes(x)] on an array of strings. *)
Fixpoint includes (arr : list string) (x : string) : bool :=
  match arr with
  | [] => false
  | y :: rest => String.eqb y x || includes rest x
  end.

(** [arr.push(x)]: the array with [x] added at its end. *)
Definition push (arr : list string) (x : string) : list string := arr ++ [x].

(** A JavaScript [Error], carried by its message. *)
Definition Error := string.

End JS.

(** ** The data model *)

(** [Big]: the values of big.js met in the node store. All of them are built
    from [Big(0)], from the 64-bit integer fields [balance], [totalBalance]
    and [amount] of the LND messages, and by [plus], which is exact; they are
    integers, and [plus] is addition. *)
Definition Big := Z.

(** Modelled from the spec: the [Wallet] model of [store/models], whose source
    is not part of the files at hand. Per the specification it is the pair
    [channelBalance : decimal], [walletBalance : decimal]. *)
Record Wallet := mkWallet {
  channelBalance : Big;
  walletBalance : Big
}.

(** [Transaction.AsObject], restricted to the fields the store reads. *)
Record Transaction := mkTransaction {
  txHash : string;
  amount : Z
}.

(** An element of [GetInfoResponse.chainsList]. *)
Record Chain := mkChain {
  chain_name : string;
  chain_network : string
}.

(** The object [getInfo] resolves with. A field that the object does not
    carry reads as [undefined], here [None]. *)
Record GetInfoResponse := mkGetInfoResponse {
  identityPubkey : JS.jsstring;
  info_alias : JS.jsstring;
  chainsList : option (list Chain);
  urisList : option (list string)
}.

Record ChannelBalanceResponse := mkChannelBalanceResponse { balance : Z }.
Record WalletBalanceResponse := mkWalletBalanceResponse { totalBalance : Z }.

(** The fields of the class [NodeStore]. [pubkey] and [alias] are declared as
    strings and start as ['']; [fetchInfo] assigns them the response's fields
    as they are, so at run time they hold whatever the response carried.
    [chain] and [network] are assigned from the response through an unchecked
    [as] cast and therefore hold arbitrary strings at run time. *)
Record NodeStore := mkNodeStore {
  _knownTxns : list string;
  pubkey : JS.jsstring;
  alias : JS.jsstring;
  url : string;
  chain : string;
  network : string;
  wallet : Wallet
}.

(** The store as its field initialisers leave it. *)
Definition new_NodeStore : NodeStore :=
  {| _knownTxns := [];
     pubkey := Some "";
     alias := Some "";
     url := "";
     chain := "bitcoin";
     network := "mainnet";
     wallet := mkWallet 0 0 |}.

(** ** The collaborators of the store *)

(** What is passed to [log.info] after the message. *)
Inductive LogData :=
| NoData
| TransactionData (tx : Transaction)
| NodeData (snapshot : NodeStore)
| WalletData (snapshot : Wallet).

Record LogEntry := mkLogEntry {
  log_message : string;
  log_data : LogData
}.

(** The calls received by [uiStore]. *)
Inductive UiCall :=
| Notify (message detail severity : string)
| HandleError (error : JS.Error) (title : string).

(** The node store together with the collaborators it acts on: the log, the
    UI store and the clipboard, each recorded as the calls it received, the
    oldest first. *)
Record World := mkWorld {
  node : NodeStore;
  log : list LogEntry;
  uiStore : list UiCall;
  clipboard : list JS.jsstring
}.

Definition set_node (f : NodeStore -> NodeStore) (w : World) : World :=
  {| node := f (node w); log := log w; uiStore := uiStore w;
     clipboard := clipboard w |}.

Definition log_info (message : string) (data : LogData) (w : World) : World :=
  {| node := node w; log := log w ++ [mkLogEntry message data];
     uiStore := uiStore w; clipboard := clipboard w |}.

Definition ui_call (c : UiCall) (w : World) : World :=
  {| node := node w; log := log w; uiStore := uiStore w ++ [c];
     clipboard := clipboard w |}.

Definition notify (message detail severity : string) : World -> World :=
  ui_call (Notify message detail severity).

Definition handleError (error : JS.Error) (title : string) : World -> World :=
  ui_call (HandleError error title).

Definition copyToClipboard (text : JS.jsstring) (w : World) : World :=
  {| node := node w; log := log w; uiStore := uiStore w;
     clipboard := clipboard w ++ [text] |}.

(** ** Asynchronous code *)

(** The three calls of [api.lnd] the store makes, and what each resolves
    with. *)
Inductive Rpc := GetInfo | ChannelBalance | WalletBalance.

Definition Reply (r : Rpc) : Type :=
  match r with
  | GetInfo => GetInfoResponse
  | ChannelBalance => ChannelBalanceResponse
  | WalletBalance => WalletBalanceResponse
  end.

(** A settled promise. *)
Inductive Settled (A : Type) :=
| Resolved (a : A)
| Rejected (e : JS.Error).
Arguments Resolved {A} a.
Arguments Rejected {A} e.

(** How the node answers each call. *)
Definition LndApi := forall r : Rpc, Settled (Reply r).

(** The node that settles the three calls as given. *)
Definition lnd_replies (info : Settled GetInfoResponse)
    (offChain : Settled ChannelBalanceResponse)
    (onChain : Settled WalletBalanceResponse) : LndApi :=
  fun r =>
    match r with
    | GetInfo => info
    | ChannelBalance => offChain
    | WalletBalance => onChain
    end.

(** The body of an [async] method: it returns, throws, runs a synchronous
    piece of code on the store and its collaborators, or awaits a call of
    [api.lnd] and goes on with the way that call settled. *)
Inductive Async (A : Type) :=
| Ret (a : A)
| Throw (e : JS.Error)
| Act (f : World -> World) (k : Async A)
| Await (r : Rpc) (k : Settled (Reply r) -> Async A).
Arguments Ret {A} a.
Arguments Throw {A} e.
Arguments Act {A} f k.
Arguments Await {A} r k.

Fixpoint bind {A B : Type} (m : Async A) (f : A -> Async B) : Async B :=
  match m with
  | Ret a => f a
  | Throw e => Throw e
  | Act g k => Act g (bind k f)
  | Await r k => Await r (fun s => bind (k s) f)
  end.

(** [try { m } catch (error) { h error }]. *)
Fixpoint try_catch {A : Type} (m : Async A) (h : JS.Error -> Async A) : Async A :=
  match m with
  | Ret a => Ret a
  | Throw e => h e
  | Act g k => Act g (try_catch k h)
  | Await r k => Await r (fun s => try_catch (k s) h)
  end.

(** [await api.lnd.r()]: the value the call resolves with; a rejection is
    thrown at the [await]. *)
Definition await (r : Rpc) : Async (Reply r) :=
  Await r (fun s => match s with
                    | Resolved v => Ret v
                    | Rejected e => Throw e
                    end).

(** A synchronous statement. *)
Definition act (f : World -> World) : Async unit := Act f (Ret tt).

(** [runInAction(name, fn)] runs [fn] at once, as one batch. *)
Definition runInAction (name : string) (fn : World -> World) : Async unit :=
  act fn.

Declare Scope async_scope.
Delimit Scope async_scope with async.
Notation "x <- m ;; k" := (bind m (fun x => k))
  (at level 61, m at next level, right associativity) : async_scope.
Notation "m ;; k" := (bind m (fun _ => k))
  (at level 61, right associativity) : async_scope.

(** Running an [async] method to its end on the single thread of the page.
    Each [await] suspends the method; whatever else runs before it resumes
    (other handlers of the page) is the next element of [others], and nothing
    when [others] is used up. The result is the state when the method ends
    and the way its promise settles. *)
Fixpoint run {A : Type} (m : Async A) (api : LndApi)
    (others : list (World -> World)) (w : World) : World * Settled A :=
  match m with
  | Ret a => (w, Resolved a)
  | Throw e => (w, Rejected e)
  | Act f k => run k api others (f w)
  | Await r k =>
      match others with
      | [] => run (k (api r)) api [] w
      | other :: others' => run (k (api r)) api others' (other w)
      end
  end.

(** The first [n] of the [others], run in order. *)
Definition run_others (n : nat) (others : list (World -> World)) (w : World)
    : World :=
  fold_left (fun w' other => other w') (firstn n others) w.

(** ** The actions of [NodeStore] *)

Definition set_knownTxns (v : list string) (n : NodeStore) : NodeStore :=
  {| _knownTxns := v; pubkey := pubkey n; alias := alias n; url := url n;
     chain := chain n; network := network n; wallet := wallet n |}.

Definition set_pubkey (v : JS.jsstring) (n : NodeStore) : NodeStore :=
  {| _knownTxns := _knownTxns n; pubkey := v; alias := alias n; url := url n;
     chain := chain n; network := network n; wallet := wallet n |}.

Definition set_alias (v : JS.jsstring) (n : NodeStore) : NodeStore :=
  {| _knownTxns := _knownTxns n; pubkey := pubkey n; alias := v; url := url n;
     chain := chain n; network := network n; wallet := wallet n |}.

Definition set_url (v : string) (n : NodeStore) : NodeStore :=
  {| _knownTxns := _knownTxns n; pubkey := pubkey n; alias := alias n; url := v;
     chain := chain n; network := network n; wallet := wallet n |}.

Definition set_chain (v : string) (n : NodeStore) : NodeStore :=
  {| _knownTxns := _knownTxns n; pubkey := pubkey n; alias := alias n;
     url := url n; chain := v; network := network n; wallet := wallet n |}.

Definition set_network (v : string) (n : NodeStore) : NodeStore :=
  {| _knownTxns := _knownTxns n; pubkey := pubkey n; alias := alias n;
     url := url n; chain := chain n; network := v; wallet := wallet n |}.

Definition set_wallet (v : Wallet) (n : NodeStore) : NodeStore :=
  {| _knownTxns := _knownTxns n; pubkey := pubkey n; alias := alias n;
     url := url n; chain := chain n; network := network n; wallet := v |}.

Definition set_channelBalance (v : Big) (wl : Wallet) : Wallet :=
  {| channelBalance := v; walletBalance := walletBalance wl |}.

Definition set_walletBalance (v : Big) (wl : Wallet) : Wallet :=
  {| channelBalance := channelBalance wl; walletBalance := v |}.

(** The argument of [copy]. *)
Inductive CopyKey := KeyPubkey | KeyAlias | KeyUrl.

Definition key_name (key : CopyKey) : string :=
  match key with
  | KeyPubkey => "pubkey"
  | KeyAlias => "alias"
  | KeyUrl => "url"
  end.

(** [this[key]]. *)
Definition field (key : CopyKey) (n : NodeStore) : JS.jsstring :=
  match key with
  | KeyPubkey => pubkey n
  | KeyAlias => alias n
  | KeyUrl => Some (url n)
  end.

Definition copy (key : CopyKey) (w : World) : World :=
  let w := copyToClipboard (field key (node w)) w in
  let msg := "Copied " ++ key_name key ++ " to clipboard" in
  notify msg "" "success" w.

(** The callback [fetchInfo] passes to [runInAction]. *)
Definition getInfoContinuation (info : GetInfoResponse) (w : World) : World :=
  let w := set_node (set_pubkey (identityPubkey info)) w in
  let w := set_node (set_alias (info_alias info)) w in
  let w :=
    match chainsList info with
    | Some (c :: _) =>
        let w := set_node (set_chain (chain_name c)) w in
        set_node (set_network (chain_network c)) w
    | Some [] | None => w
    end in
  let w :=
    match urisList info with
    | Some (u :: _) => set_node (set_url u) w
    | Some [] | None => w
    end in
  log_info "updated nodeStore info" (NodeData (node w)) w.

Definition fetchInfo : Async unit :=
  (act (log_info "fetching node info" NoData) ;;
   try_catch
     (info <- await GetInfo ;;
      runInAction "getInfoContinuation" (getInfoContinuation info))
     (fun error => act (handleError error "Unable to fetch node info")))%async.

(** The callback [fetchBalances] passes to [runInAction]. *)
Definition fetchBalancesContinuation (offChain : ChannelBalanceResponse)
    (onChain : WalletBalanceResponse) (w : World) : World :=
  let w :=
    set_node (fun n => set_wallet (set_channelBalance (balance offChain) (wallet n)) n) w in
  let w :=
    set_node (fun n => set_wallet (set_walletBalance (totalBalance onChain) (wallet n)) n) w in
  log_info "updated nodeStore.wallet" (WalletData (wallet (node w))) w.

Definition fetchBalances : Async unit :=
  (act (log_info "fetching node balances" NoData) ;;
   try_catch
     (offChain <- await ChannelBalance ;;
      onChain <- await WalletBalance ;;
      runInAction "fetchBalancesContinuation"
        (fetchBalancesContinuation offChain onChain))
     (fun error => act (handleError error "Unable to fetch balances")))%async.

Definition onTransaction (transaction : Transaction) (w : World) : World :=
  let w := log_info "handle incoming transaction" (TransactionData transaction) w in
  if JS.includes (_knownTxns (node w)) (txHash transaction) then w
  else
    let w :=
      set_node (fun n => set_knownTxns (JS.push (_knownTxns n) (txHash transaction)) n) w in
    let w :=
      set_node (fun n =>
        set_wallet (set_walletBalance (walletBalance (wallet n) + amount transaction)
                      (wallet n)) n) w in
    log_info "updated nodeStore.wallet" (WalletData (wallet (node w))) w.

(** A run of calls of [onTransaction], in the order of the list. *)
Definition onTransactions (txs : list Transaction) (w : World) : World :=
  fold_left (fun w' tx => onTransaction tx w') txs w.

(** ** The computed label of the url *)

Section Labels.

(** [ellipseInside] of [util/strings], whose source is not part of the files
    at hand: any function from strings to strings. *)
Variable ellipseInside : string -> string.

Definition urlLabel (n : NodeStore) : string :=
  if negb (JS.truthy (url n)) then ""
  else
    let pieces := JS.split "@" (url n) in
    let pubkey := hd_error pieces in
    let host := hd_error (tl pieces) in
    if negb (JS.truthy_opt host) then ""
    else
      match pubkey, host with
      | Some p, Some h => ellipseInside p ++ "@" ++ h
      | _, _ => ""
      end.

End Labels.


(** ** The store context: [StoreProvider], [useStore], [useActions] *)

(** How a synchronous function call ends. *)
Inductive Outcome (A : Type) :=
| Returns (a : A)
| Throws (e : JS.Error).
Arguments Returns {A} a.
Arguments Throws {A} e.

Section StoreContext.

(** The aggregate store and its actions, with the two collaborators of
    [StoreProvider]: [createActions] of the action layer, and what
    [useLocalStore(() => store)] gives for a store. *)
Variables Store StoreActions : Type.
Variable createActions : Store -> StoreActions.
Variable useLocalStore : Store -> Store.

Record ContextData := mkContextData {
  store : Store;
  actions : StoreActions
}.

(** The ancestors of a component in the rendered tree: a [StoreProvider] with
    its props, or any other component. *)
Inductive Ancestor :=
| StoreProviderOf (store : Store) (actions : option StoreActions)
| Component (name : string).

(** The value [StoreProvider] hands to [StoreContext.Provider]. A supplied
    [actions] object is truthy, so [actions || createActions(store)] is the
    supplied one when there is one. *)
Definition StoreProvider (store : Store) (actions : option StoreActions)
    : ContextData :=
  {| store := useLocalStore store;
     actions := match actions with
                | Some a => a
                | None => createActions store
                end |}.

(** [useContext(StoreContext)] in a component whose ancestors are given from
    the nearest outwards: the value of the nearest provider of the context,
    and the default of [React.createContext], [undefined], without one. *)
Fixpoint useContext (ancestors : list Ancestor) : option ContextData :=
  match ancestors with
  | [] => None
  | StoreProviderOf s a :: _ => Some (StoreProvider s a)
  | Component _ :: outer => useContext outer
  end.

Definition useStore (ancestors : list Ancestor) : Outcome Store :=
  match useContext ancestors with
  | None => Throws "useStore must be used within a StoreProvider."
  | Some data => Returns (store data)
  end.

Definition useActions (ancestors : list Ancestor) : Outcome StoreActions :=
  match useContext ancestors with
  | None => Throws "useActions must be used within a StoreProvider."
  | Some data => Returns (actions data)
  end.

End StoreContext.

Arguments store {Store StoreActions} c.
Arguments actions {Store StoreActions} c.
Arguments StoreProviderOf {Store StoreActions} store actions.
Arguments Component {Store StoreActions} name.
Arguments StoreProvider {Store StoreActions} createActions useLocalStore store actions.
Arguments useContext {Store StoreActions} createActions useLocalStore ancestors.
Arguments useStore {Store StoreActions} createActions useLocalStore ancestors.
Arguments useActions {Store StoreActions} createActions useLocalStore ancestors.

(** The number of calls of [api.lnd] that [fetchBalances] awaits: it stops at
    the first one that rejects. *)
Definition fetchBalances_awaits (api : LndApi) : nat :=
  match api ChannelBalance with
  | Rejected _ => 1
  | Resolved _ => 2
  end.

(** [fetchBalances] meets a rejection [e]: of the first call, or of the second
    after the first resolved. *)
Definition fetchBalances_rejects (api : LndApi) (e : JS.Error) : Prop :=
  api ChannelBalance = Rejected e
  \/ (exists offChain, api ChannelBalance = Resolved offChain)
     /\ api WalletBalance = Rejected e.

(** ** Sums of amounts *)

(** The sum of the amounts of a list of transactions. *)
Definition sum_amounts (txs : list Transaction) : Z :=
  fold_right Z.add 0 (map amount txs).

(** ** The synchronous pieces of the methods

    On the single thread of the page the store changes in pieces that run to
    their end one after the other: a call of [copy] or [onTransaction], the
    part of a fetch before its first [await], and the part after its last one
    (the [runInAction] batch when the calls resolved, the [catch] block when
    one rejected). *)
Inductive Segment :=
| CopyCall (key : CopyKey)
| TransactionCall (tx : Transaction)
| FetchInfoStart
| GetInfoResolved (info : GetInfoResponse)
| GetInfoRejected (e : JS.Error)
| FetchBalancesStart
| BalancesResolved (offChain : ChannelBalanceResponse) (onChain : WalletBalanceResponse)
| BalancesRejected (e : JS.Error).

Definition run_segment (s : Segment) : World -> World :=
  match s with
  | CopyCall key => copy key
  | TransactionCall tx => onTransaction tx
  | FetchInfoStart => log_info "fetching node info" NoData
  | GetInfoResolved info => getInfoContinuation info
  | GetInfoRejected e => handleError e "Unable to fetch node info"
  | FetchBalancesStart => log_info "fetching node balances" NoData
  | BalancesResolved offChain onChain => fetchBalancesContinuation offChain onChain
  | BalancesRejected e => handleError e "Unable to fetch balances"
  end.

Definition run_segments (segs : list Segment) (w : World) : World :=
  fold_left (fun w' s => run_segment s w') segs w.

(** The pieces a call of [fetchInfo] amounts to, when [others] are the pieces
    that run during its successive suspensions. *)
Definition fetchInfo_trace (api : LndApi) (others : list (list Segment))
    : list Segment :=
  FetchInfoStart
  :: hd [] others
  ++ [match api GetInfo with
      | Resolved info => GetInfoResolved info
      | Rejected e => GetInfoRejected e
      end].

(** The same for [fetchBalances], which is suspended a second time only when
    its first call resolved. *)
Definition fetchBalances_trace (api : LndApi) (others : list (list Segment))
    : list Segment :=
  FetchBalancesStart
  :: hd [] others
  ++ match api ChannelBalance with
     | Rejected e => [BalancesRejected e]
     | Resolved offChain =>
         hd [] (tl others)
         ++ [match api WalletBalance with
             | Resolved onChain => BalancesResolved offChain onChain
             | Rejected e => BalancesRejected e
             end]
     end.

(** The piece is the batch of a [fetchInfo] whose call resolved. *)
Definition is_GetInfoResolved (s : Segment) : bool :=
  match s with
  | GetInfoResolved _ => true
  | _ => false
  end.

(** The piece is the batch of a [fetchBalances] whose calls resolved. *)
Definition is_BalancesResolved (s : Segment) : bool :=
  match s with
  | BalancesResolved _ _ => true
  | _ => false
  end.

(** The piece is a call of [onTransaction]. *)
Definition is_TransactionCall (s : Segment) : bool :=
  match s with
  | TransactionCall _ => true
  | _ => false
  end.

(** ** The Storybook decorator *)

(** Some ancestor is a [StoreProvider]. *)
Definition has_provider {Store StoreActions : Type}
    (ancestors : list (Ancestor Store StoreActions)) : bool :=
  existsb (fun a => match a with
                    | StoreProviderOf _ _ => true
                    | Component _ => false
                    end) ancestors.

(** The ancestors of a component of a story under the decorator of the
    Storybook configuration: those inside the story, then [ThemeProvider],
    then the [StoreProvider] given the store and the dummy actions, then
    whatever Storybook puts around it. *)
Definition decorated {Store StoreActions : Type} (store : Store)
    (actions : StoreActions) (story outer : list (Ancestor Store StoreActions))
    : list (Ancestor Store StoreActions) :=
  story ++ [Component "ThemeProvider"; StoreProviderOf store (Some actions)] ++ outer.

(** ** The debounced refresh *)




(** * Properties *)

(** ** Frame lemmas of the collaborators *)

Lemma node_log_info message data w : node (log_info message data w) = node w.
Proof. reflexivity. Qed.

Lemma node_ui_call c w : node (ui_call c w) = node w.
Proof. reflexivity. Qed.

Lemma node_copyToClipboard text w : node (copyToClipboard text w) = node w.
Proof. reflexivity. Qed.

Lemma includes_In arr x : JS.includes arr x = true <-> In x arr.
Proof.
  induction arr as [|y rest IH]; simpl.
  - split; [discriminate | tauto].
  - rewrite orb_true_iff, IH, String.eqb_eq. tauto.
Qed.

Lemma includes_push arr x : JS.includes (JS.push arr x) x = true.
Proof. apply includes_In. unfold JS.push. apply in_or_app. right. left. reflexivity. Qed.

(** ** [copy] *)

(** C8: [copy key] leaves every field of the node store as it was, and the
    log too; it hands the value of the field to the clipboard once and sends
    the UI store one [notify] call, of severity [success]. *)
Theorem copy_frame (key : CopyKey) (w : World) :
  node (copy key w) = node w
  /\ log (copy key w) = log w
  /\ clipboard (copy key w) = (clipboard w ++ [field key (node w)])%list
  /\ uiStore (copy key w)
     = (uiStore w
        ++ [Notify ("Copied " ++ key_name key ++ " to clipboard") "" "success"])%list.
Proof. repeat split. Qed.

(** ** [onTransaction] *)

(** What one call does to the node store. *)
Lemma node_onTransaction tx w :
  node (onTransaction tx w)
  = if JS.includes (_knownTxns (node w)) (txHash tx) then node w
    else set_wallet
           (set_walletBalance (walletBalance (wallet (node w)) + amount tx)
              (wallet (node w)))
           (set_knownTxns (JS.push (_knownTxns (node w)) (txHash tx)) (node w)).
Proof.
  unfold onTransaction. simpl.
  destruct (JS.includes (_knownTxns (node w)) (txHash tx)); reflexivity.
Qed.

(** C9: after [onTransaction tx] the fields [pubkey], [alias], [url], [chain],
    [network] and [wallet.channelBalance] are what they were. *)
Theorem onTransaction_frame (tx : Transaction) (w : World) :
  let w' := onTransaction tx w in
  pubkey (node w') = pubkey (node w)
  /\ alias (node w') = alias (node w)
  /\ url (node w') = url (node w)
  /\ chain (node w') = chain (node w)
  /\ network (node w') = network (node w)
  /\ channelBalance (wallet (node w')) = channelBalance (wallet (node w)).
Proof.
  cbv zeta. rewrite node_onTransaction.
  destruct (JS.includes (_knownTxns (node w)) (txHash tx)); repeat split.
Qed.

(** C2, as the specification states it, fails: a store that has handled a
    transaction of hash ['a1'] and holds a wallet balance of 1000 still holds
    1000 after two calls of [onTransaction] with a transaction of that hash
    and amount 500; the two calls change the balance not once but not at
    all. *)
Lemma onTransaction_known_hash_adds_nothing :
  _knownTxns (node (onTransaction (mkTransaction "a1" 1000)
                      (mkWorld new_NodeStore [] [] [])))
  = ["a1"]
  /\ walletBalance (wallet (node (onTransaction (mkTransaction "a1" 1000)
                                    (mkWorld new_NodeStore [] [] []))))
     = 1000
  /\ walletBalance (wallet (node
        (onTransaction (mkTransaction "a1" 500)
           (onTransaction (mkTransaction "a1" 500)
              (onTransaction (mkTransaction "a1" 1000)
                 (mkWorld new_NodeStore [] [] []))))))
     = 1000
  /\ walletBalance (wallet (node
        (onTransaction (mkTransaction "a1" 500)
           (onTransaction (mkTransaction "a1" 500)
              (onTransaction (mkTransaction "a1" 1000)
                 (mkWorld new_NodeStore [] [] []))))))
     <> 1000 + amount (mkTransaction "a1" 500).
Proof. repeat split. discriminate. Qed.

(** C2, amended: of two calls of [onTransaction] with the same [txHash], the
    second leaves the node store, and so both balances and the known hashes,
    as the first left it, in every state; the two calls together add the
    amount of the first to [walletBalance] exactly once when the hash is not
    yet in the list of known hashes, and add nothing when it already is. *)
Theorem onTransaction_idempotent (tx1 tx2 : Transaction) (w : World) :
  txHash tx1 = txHash tx2 ->
  let w1 := onTransaction tx1 w in
  let w2 := onTransaction tx2 w1 in
  node w2 = node w1
  /\ (~ In (txHash tx1) (_knownTxns (node w)) ->
      walletBalance (wallet (node w2)) = walletBalance (wallet (node w)) + amount tx1)
  /\ (In (txHash tx1) (_knownTxns (node w)) ->
      walletBalance (wallet (node w2)) = walletBalance (wallet (node w))).
Proof.
  intros Hhash. cbv zeta.
  assert (Hknown : JS.includes (_knownTxns (node (onTransaction tx1 w))) (txHash tx2) = true).
  { rewrite node_onTransaction, <- Hhash.
    destruct (JS.includes (_knownTxns (node w)) (txHash tx1)) eqn:E.
    - exact E.
    - simpl. apply includes_push. }
  rewrite (node_onTransaction tx2), Hknown.
  split; [reflexivity|].
  rewrite node_onTransaction.
  destruct (JS.includes (_knownTxns (node w)) (txHash tx1)) eqn:E.
  - apply includes_In in E. split; [intros Hnew; contradiction | reflexivity].
  - split; [reflexivity|].
    intros Hin. apply includes_In in Hin. rewrite Hin in E. discriminate.
Qed.

Lemma onTransaction_idempotent_witness :
  walletBalance (wallet (node
    (onTransaction (mkTransaction "b2" 500)
       (onTransaction (mkTransaction "b2" 500)
          (mkWorld (set_wallet (mkWallet 0 1000) (set_knownTxns ["a1"] new_NodeStore))
             [] [] [])))))
  = 1000 + 500
  /\ walletBalance (wallet (node
       (onTransaction (mkTransaction "a1" 500)
          (onTransaction (mkTransaction "a1" 500)
             (mkWorld (set_wallet (mkWallet 0 1000) (set_knownTxns ["a1"] new_NodeStore))
                [] [] [])))))
     = 1000.
Proof.
  split.
  - apply (proj1 (proj2 (onTransaction_idempotent (mkTransaction "b2" 500)
             (mkTransaction "b2" 500)
             (mkWorld (set_wallet (mkWallet 0 1000) (set_knownTxns ["a1"] new_NodeStore))
                [] [] []) eq_refl))).
    simpl. intros [H|[]]. discriminate H.
  - apply (proj2 (proj2 (onTransaction_idempotent (mkTransaction "a1" 500)
             (mkTransaction "a1" 500)
             (mkWorld (set_wallet (mkWallet 0 1000) (set_knownTxns ["a1"] new_NodeStore))
                [] [] []) eq_refl))).
    simpl. left. reflexivity.
Defined.

(** A run of calls whose hashes are new and pairwise distinct adds every
    amount and records every hash. *)
Lemma onTransactions_fresh txs : forall w,
  NoDup (map txHash txs) ->
  (forall tx, In tx txs -> ~ In (txHash tx) (_knownTxns (node w))) ->
  walletBalance (wallet (node (onTransactions txs w)))
  = walletBalance (wallet (node w)) + sum_amounts txs
  /\ _knownTxns (node (onTransactions txs w))
     = (_knownTxns (node w) ++ map txHash txs)%list.
Proof.
  induction txs as [|tx txs IH]; intros w Hnodup Hnew.
  - unfold sum_amounts. simpl. rewrite Z.add_0_r, app_nil_r. split; reflexivity.
  - simpl in Hnodup. inversion Hnodup as [|h hs Hnotin Hnodup' Heq]; subst.
    assert (Hfresh : JS.includes (_knownTxns (node w)) (txHash tx) = false).
    { destruct (JS.includes (_knownTxns (node w)) (txHash tx)) eqn:E; [|reflexivity].
      exfalso. apply (Hnew tx (or_introl eq_refl)). apply includes_In. exact E. }
    change (onTransactions (tx :: txs) w) with (onTransactions txs (onTransaction tx w)).
    destruct (IH (onTransaction tx w) Hnodup') as [Hbal Hknown].
    + intros tx' Hin. rewrite node_onTransaction, Hfresh. simpl. unfold JS.push.
      intros Hin'. apply in_app_or in Hin'. destruct Hin' as [Hin'|[Heq'|[]]].
      * exact (Hnew tx' (or_intror Hin) Hin').
      * apply Hnotin. rewrite Heq'. apply in_map. exact Hin.
    + rewrite Hbal, Hknown, node_onTransaction, Hfresh. simpl.
      unfold sum_amounts, JS.push. simpl. rewrite <- app_assoc. split; [lia | reflexivity].
Qed.

Lemma sum_amounts_Permutation txs txs' :
  Permutation txs txs' -> sum_amounts txs = sum_amounts txs'.
Proof.
  unfold sum_amounts.
  induction 1 as [|x l l' _ IH|x y l|l l' l'' _ IH1 _ IH2]; simpl.
  - reflexivity.
  - rewrite IH. reflexivity.
  - lia.
  - rewrite IH1. exact IH2.
Qed.

(** C4, as the specification states it, fails: a store that has handled a
    transaction of hash ['a1'] and holds a wallet balance of 1000 is given two
    calls with the distinct hashes ['a1'] and ['b2'] and the amounts 500 and
    7; it ends with 1007, not with 1000 plus the sum 507. *)
Lemma onTransactions_known_hash_skipped :
  NoDup (map txHash [mkTransaction "a1" 500; mkTransaction "b2" 7])
  /\ walletBalance (wallet (node (onTransaction (mkTransaction "a1" 1000)
                                    (mkWorld new_NodeStore [] [] []))))
     = 1000
  /\ walletBalance (wallet (node
        (onTransactions [mkTransaction "a1" 500; mkTransaction "b2" 7]
           (onTransaction (mkTransaction "a1" 1000) (mkWorld new_NodeStore [] [] [])))))
     = 1007
  /\ walletBalance (wallet (node
        (onTransactions [mkTransaction "a1" 500; mkTransaction "b2" 7]
           (onTransaction (mkTransaction "a1" 1000) (mkWorld new_NodeStore [] [] [])))))
     <> 1000 + sum_amounts [mkTransaction "a1" 500; mkTransaction "b2" 7].
Proof.
  repeat split.
  - simpl. repeat constructor; simpl; intuition discriminate.
  - discriminate.
Qed.

(** C4, amended: when the hashes of [txs] are pairwise distinct and none of
    them is in the store's list of known hashes yet, the calls of
    [onTransaction] for [txs], made in any order [calls], end with
    [walletBalance] at its value before the calls plus the sum of the amounts
    of [txs]. *)
Theorem onTransactions_sum (txs calls : list Transaction) (w : World) :
  NoDup (map txHash txs) ->
  (forall tx, In tx txs -> ~ In (txHash tx) (_knownTxns (node w))) ->
  Permutation txs calls ->
  walletBalance (wallet (node (onTransactions calls w)))
  = walletBalance (wallet (node w)) + sum_amounts txs.
Proof.
  intros Hnodup Hnew Hperm.
  rewrite (sum_amounts_Permutation _ _ Hperm).
  apply onTransactions_fresh.
  - apply (Permutation_NoDup (Permutation_map txHash Hperm)). exact Hnodup.
  - intros tx Hin. apply Hnew. apply (Permutation_in _ (Permutation_sym Hperm)). exact Hin.
Qed.

Lemma onTransactions_sum_witness :
  walletBalance (wallet (node
    (onTransactions
       [mkTransaction "c3" 7; mkTransaction "a1" 500; mkTransaction "b2" (-200)]
       (mkWorld (set_wallet (mkWallet 0 1000) (set_knownTxns ["z9"] new_NodeStore))
          [] [] []))))
  = 1000 + sum_amounts
             [mkTransaction "a1" 500; mkTransaction "b2" (-200); mkTransaction "c3" 7].
Proof.
  apply (onTransactions_sum
           [mkTransaction "a1" 500; mkTransaction "b2" (-200); mkTransaction "c3" 7]
           [mkTransaction "c3" 7; mkTransaction "a1" 500; mkTransaction "b2" (-200)]
           (mkWorld (set_wallet (mkWallet 0 1000) (set_knownTxns ["z9"] new_NodeStore))
              [] [] [])).
  - simpl. repeat constructor; simpl; intuition discriminate.
  - simpl. intros tx [H|[H|[H|[]]]] [K|[]]; subst tx; discriminate K.
  - apply Permutation_sym.
    apply (Permutation_cons_app
             [mkTransaction "a1" 500; mkTransaction "b2" (-200)] []
             (mkTransaction "c3" 7)).
    apply Permutation_refl.
Defined.

(** ** [fetchBalances] *)

(** C3: when the first call of [fetchBalances] rejects, or the second does
    after the first resolved, the method writes nothing to the store: it ends
    in the state made by its first log entry and by whatever else ran while it
    was suspended, with one [handleError] call added. With nothing else
    running, the node store, and so both balances, are those from before the
    call. *)
Theorem fetchBalances_all_or_nothing (api : LndApi) (e : JS.Error) :
  fetchBalances_rejects api e ->
  (forall others w,
     fst (run fetchBalances api others w)
     = handleError e "Unable to fetch balances"
         (run_others (fetchBalances_awaits api) others
            (log_info "fetching node balances" NoData w)))
  /\ (forall w, node (fst (run fetchBalances api [] w)) = node w).
Proof.
  unfold fetchBalances_rejects, fetchBalances_awaits.
  intros [H1 | [[offChain H1] H2]].
  - split; intros; unfold fetchBalances; simpl; rewrite H1;
      [destruct others as [|o1 others]|]; reflexivity.
  - split; intros; unfold fetchBalances; simpl; rewrite H1; simpl.
    + destruct others as [|o1 [|o2 others]]; simpl; rewrite H2; reflexivity.
    + rewrite H2. reflexivity.
Qed.

Lemma fetchBalances_all_or_nothing_witness :
  (forall others w,
     fst (run fetchBalances
            (lnd_replies (Rejected "no info") (Resolved (mkChannelBalanceResponse 100))
               (Rejected "wallet locked")) others w)
     = handleError "wallet locked" "Unable to fetch balances"
         (run_others 2 others (log_info "fetching node balances" NoData w)))
  /\ (forall w,
        node (fst (run fetchBalances
                     (lnd_replies (Rejected "no info")
                        (Resolved (mkChannelBalanceResponse 100))
                        (Rejected "wallet locked")) [] w))
        = node w).
Proof.
  apply (fetchBalances_all_or_nothing
           (lnd_replies (Rejected "no info") (Resolved (mkChannelBalanceResponse 100))
              (Rejected "wallet locked"))
           "wallet locked").
  right. split; [exists (mkChannelBalanceResponse 100)|]; reflexivity.
Defined.

(** A successful [fetchBalances] overwrites both balances. *)
Example fetchBalances_success :
  wallet (node (fst (run fetchBalances
    (lnd_replies (Rejected "unused") (Resolved (mkChannelBalanceResponse 100))
       (Resolved (mkWalletBalanceResponse 2500)))
    [] (mkWorld new_NodeStore [] [] []))))
  = mkWallet 100 2500.
Proof. reflexivity. Qed.

(** A transaction handled while [fetchBalances] is suspended is kept when the
    second call then rejects. *)
Example fetchBalances_rejected_between :
  wallet (node (fst (run fetchBalances
    (lnd_replies (Rejected "unused") (Resolved (mkChannelBalanceResponse 100))
       (Rejected "wallet locked"))
    [onTransaction (mkTransaction "a1" 500)] (mkWorld new_NodeStore [] [] []))))
  = mkWallet 0 500.
Proof. reflexivity. Qed.

(** ** [fetchInfo] *)

(** The scenario of the specification: a response with one chain and one uri,
    and without [identityPubkey] and [alias]. *)
Example fetchInfo_scenario_lists :
  let w := fst (run fetchInfo
    (lnd_replies
       (Resolved (mkGetInfoResponse None None
                    (Some [mkChain "litecoin" "testnet"]) (Some ["abc@host:1"])))
       (Rejected "unused") (Rejected "unused"))
    [] (mkWorld new_NodeStore [] [] [])) in
  chain (node w) = "litecoin" /\ network (node w) = "testnet"
  /\ url (node w) = "abc@host:1".
Proof. repeat split. Qed.

(** C1, as the specification states it, fails: in the scenario's response
    [identityPubkey] and [alias] are absent, and the store, which held a
    pubkey and an alias, ends with both [undefined]; the same response with
    the two fields empty leaves both empty. *)
Lemma fetchInfo_overwrites_pubkey_alias :
  (let w0 := mkWorld (set_alias (Some "alice") (set_pubkey (Some "02abc") new_NodeStore))
               [] [] [] in
   let w := fst (run fetchInfo
     (lnd_replies
        (Resolved (mkGetInfoResponse None None
                     (Some [mkChain "litecoin" "testnet"]) (Some ["abc@host:1"])))
        (Rejected "unused") (Rejected "unused")) [] w0) in
   pubkey (node w0) = Some "02abc" /\ alias (node w0) = Some "alice"
   /\ pubkey (node w) = None /\ alias (node w) = None
   /\ pubkey (node w) <> pubkey (node w0) /\ alias (node w) <> alias (node w0))
  /\
  (let w0 := mkWorld (set_alias (Some "alice") (set_pubkey (Some "02abc") new_NodeStore))
               [] [] [] in
   let w := fst (run fetchInfo
     (lnd_replies
        (Resolved (mkGetInfoResponse (Some "") (Some "")
                     (Some [mkChain "litecoin" "testnet"]) (Some ["abc@host:1"])))
        (Rejected "unused") (Rejected "unused")) [] w0) in
   pubkey (node w) = Some "" /\ alias (node w) = Some ""
   /\ pubkey (node w) <> pubkey (node w0) /\ alias (node w) <> alias (node w0)).
Proof. cbv zeta. simpl. repeat split; discriminate. Qed.

(** C1, amended: when [getInfo] resolves with [info], [fetchInfo] ends with
    [pubkey] and [alias] set to the response's [identityPubkey] and [alias],
    whatever they are; [chain] and [network] are those of the first element of
    [chainsList], and [url] is the first element of [urisList], and when the
    list is absent or empty the fields keep the values they had when the
    response arrived; the wallet and the known hashes are kept. *)
Theorem fetchInfo_updates (api : LndApi) (info : GetInfoResponse)
    (others : list (World -> World)) (w : World) :
  api GetInfo = Resolved info ->
  let before := run_others 1 others (log_info "fetching node info" NoData w) in
  let after := fst (run fetchInfo api others w) in
  pubkey (node after) = identityPubkey info
  /\ alias (node after) = info_alias info
  /\ chain (node after)
     = match chainsList info with
       | Some (c :: _) => chain_name c
       | Some [] | None => chain (node before)
       end
  /\ network (node after)
     = match chainsList info with
       | Some (c :: _) => chain_network c
       | Some [] | None => network (node before)
       end
  /\ url (node after)
     = match urisList info with
       | Some (u :: _) => u
       | Some [] | None => url (node before)
       end
  /\ wallet (node after) = wallet (node before)
  /\ _knownTxns (node after) = _knownTxns (node before).
Proof.
  intros Hinfo. cbv zeta. unfold fetchInfo. simpl. rewrite Hinfo.
  destruct others as [|o1 others]; simpl;
    unfold getInfoContinuation;
    destruct (chainsList info) as [[|c cs]|], (urisList info) as [[|u us]|];
    repeat split.
Qed.

Lemma fetchInfo_updates_witness :
  let api := lnd_replies
       (Resolved (mkGetInfoResponse None None
                    (Some [mkChain "litecoin" "testnet"]) (Some ["abc@host:1"])))
       (Rejected "unused") (Rejected "unused") in
  let after := fst (run fetchInfo api [] (mkWorld new_NodeStore [] [] [])) in
  pubkey (node after) = None
  /\ alias (node after) = None
  /\ chain (node after) = "litecoin"
  /\ network (node after) = "testnet"
  /\ url (node after) = "abc@host:1"
  /\ wallet (node after) = mkWallet 0 0
  /\ _knownTxns (node after) = [].
Proof.
  exact (fetchInfo_updates
           (lnd_replies
              (Resolved (mkGetInfoResponse None None
                           (Some [mkChain "litecoin" "testnet"]) (Some ["abc@host:1"])))
              (Rejected "unused") (Rejected "unused"))
           (mkGetInfoResponse None None
              (Some [mkChain "litecoin" "testnet"]) (Some ["abc@host:1"]))
           [] (mkWorld new_NodeStore [] [] []) eq_refl).
Defined.

(** ** [urlLabel] *)

Lemma split_without_sep sep s :
  JS.includes_char sep s = false -> JS.split sep s = [s].
Proof.
  induction s as [|c s IH]; simpl; [reflexivity|].
  intros H. apply orb_false_iff in H. destruct H as [Hc Hs].
  rewrite Hc, (IH Hs). reflexivity.
Qed.

Lemma split_at_first_sep sep p rest :
  JS.includes_char sep p = false ->
  JS.split sep (p ++ String sep rest) = p :: JS.split sep rest.
Proof.
  induction p as [|c p IH]; simpl.
  - intros _. rewrite Ascii.eqb_refl. reflexivity.
  - intros H. apply orb_false_iff in H. destruct H as [Hc Hp].
    rewrite Hc, (IH Hp). reflexivity.
Qed.

Lemma truthy_app_sep p sep rest : JS.truthy (p ++ String sep rest) = true.
Proof. destruct p; reflexivity. Qed.

(** The label of a non-empty url that splits into at least two pieces. *)
Lemma urlLabel_pieces ellipseInside n p h tail_pieces :
  JS.split "@" (url n) = p :: h :: tail_pieces ->
  JS.truthy (url n) = true ->
  urlLabel ellipseInside n = if JS.truthy h then ellipseInside p ++ "@" ++ h else "".
Proof.
  intros Hsplit Htruthy. unfold urlLabel. rewrite Htruthy, Hsplit. simpl.
  destruct (JS.truthy h); reflexivity.
Qed.

(** C7, as the specification states it, fails: the url ['abc@'] contains an
    ['@'], and its label is empty, whatever [ellipseInside] is, and so is not
    the shortened ['abc'] followed by ['@'] and the empty host. *)
Lemma urlLabel_empty_host :
  JS.includes_char "@" "abc@" = true
  /\ (forall ellipseInside,
        urlLabel ellipseInside (set_url "abc@" new_NodeStore) = ""
        /\ urlLabel ellipseInside (set_url "abc@" new_NodeStore)
           <> ellipseInside "abc" ++ "@" ++ "").
Proof.
  split; [reflexivity|]. intros ell. split; [reflexivity|].
  change (urlLabel ell (set_url "abc@" new_NodeStore)) with "".
  destruct (ell "abc"); discriminate.
Qed.

(** C7, amended: [urlLabel] is empty when [url] is empty or has no ['@'];
    for a url [p@h] with one ['@'] it is empty when the host [h] is empty, and
    otherwise [ellipseInside p], then ['@'], then [h]. *)
Theorem urlLabel_spec (ellipseInside : string -> string) (n : NodeStore) :
  (url n = "" \/ JS.includes_char "@" (url n) = false ->
   urlLabel ellipseInside n = "")
  /\ (forall p h,
        JS.includes_char "@" p = false ->
        JS.includes_char "@" h = false ->
        url n = p ++ "@" ++ h ->
        urlLabel ellipseInside n
        = if JS.truthy h then ellipseInside p ++ "@" ++ h else "").
Proof.
  split.
  - intros [Hempty | Hnone]; unfold urlLabel.
    + rewrite Hempty. reflexivity.
    + rewrite (split_without_sep _ _ Hnone). simpl.
      destruct (JS.truthy (url n)); reflexivity.
  - intros p h Hp Hh Hurl.
    apply (urlLabel_pieces ellipseInside n p h []).
    + rewrite Hurl. change (p ++ "@" ++ h) with (p ++ String "@" h).
      rewrite (split_at_first_sep _ _ _ Hp), (split_without_sep _ _ Hh). reflexivity.
    + rewrite Hurl. apply truthy_app_sep.
Qed.

Lemma urlLabel_spec_witness :
  urlLabel (fun s => s) (set_url "abc" new_NodeStore) = ""
  /\ urlLabel (fun s => s) (set_url "abc@host:1" new_NodeStore) = "abc@host:1"
  /\ urlLabel (fun s => s) (set_url "abc@" new_NodeStore) = "".
Proof.
  split; [|split].
  - exact (proj1 (urlLabel_spec (fun s => s) (set_url "abc" new_NodeStore))
             (or_intror eq_refl)).
  - exact (proj2 (urlLabel_spec (fun s => s) (set_url "abc@host:1" new_NodeStore))
             "abc" "host:1" eq_refl eq_refl eq_refl).
  - exact (proj2 (urlLabel_spec (fun s => s) (set_url "abc@" new_NodeStore))
             "abc" "" eq_refl eq_refl eq_refl).
Defined.

(** C10, as stated, fails: the url ['a@@b'] has two ['@'] with nothing
    between them, and its label is empty, not the shortened ['a'] followed by
    ['@'] and the empty second piece. *)
Lemma urlLabel_empty_second_piece :
  JS.split "@" "a@@b" = ["a"; ""; "b"]
  /\ (forall ellipseInside,
        urlLabel ellipseInside (set_url "a@@b" new_NodeStore) = ""
        /\ urlLabel ellipseInside (set_url "a@@b" new_NodeStore)
           <> ellipseInside "a" ++ "@" ++ "").
Proof.
  split; [reflexivity|]. intros ell. split; [reflexivity|].
  change (urlLabel ell (set_url "a@@b" new_NodeStore)) with "".
  destruct (ell "a"); discriminate.
Qed.

(** C10, amended: for a url [p@h@rest] with more than one ['@'], where [p] and
    [h] have none, [urlLabel] drops [rest]: it is [ellipseInside p], then
    ['@'], then [h] when [h] is not empty, and empty when [h] is empty. *)
Theorem urlLabel_second_sep (ellipseInside : string -> string) (n : NodeStore)
    (p h rest : string) :
  JS.includes_char "@" p = false ->
  JS.includes_char "@" h = false ->
  url n = p ++ "@" ++ h ++ "@" ++ rest ->
  urlLabel ellipseInside n
  = if JS.truthy h then ellipseInside p ++ "@" ++ h else "".
Proof.
  intros Hp Hh Hurl.
  apply (urlLabel_pieces ellipseInside n p h (JS.split "@" rest)).
  - rewrite Hurl.
    change (p ++ "@" ++ h ++ "@" ++ rest) with (p ++ String "@" (h ++ String "@" rest)).
    rewrite (split_at_first_sep _ _ _ Hp), (split_at_first_sep _ _ _ Hh). reflexivity.
  - rewrite Hurl. apply truthy_app_sep.
Qed.

Lemma urlLabel_second_sep_witness :
  urlLabel (fun s => s) (set_url "abc@host:1@more@still" new_NodeStore) = "abc@host:1".
Proof.
  exact (urlLabel_second_sep (fun s => s) (set_url "abc@host:1@more@still" new_NodeStore)
           "abc" "host:1" "more@still" eq_refl eq_refl eq_refl).
Defined.

(** ** [useStore] and [useActions] *)

(** C6: in a component with no [StoreProvider] among its ancestors [useStore]
    and [useActions] throw, each with its fixed message; in a component whose
    nearest [StoreProvider] has props [s] and [a] they return the store and
    the actions of the context that provider made. *)
Theorem useStore_useActions_spec (Store StoreActions : Type)
    (createActions : Store -> StoreActions) (useLocalStore : Store -> Store) :
  (forall names,
     useStore createActions useLocalStore (map Component names)
     = Throws "useStore must be used within a StoreProvider."
     /\ useActions createActions useLocalStore (map Component names)
        = Throws "useActions must be used within a StoreProvider.")
  /\ (forall names s a outer,
        useStore createActions useLocalStore
          (map Component names ++ StoreProviderOf s a :: outer)
        = Returns (store (StoreProvider createActions useLocalStore s a))
        /\ useActions createActions useLocalStore
             (map Component names ++ StoreProviderOf s a :: outer)
           = Returns (actions
                        (StoreProvider createActions useLocalStore s a))).
Proof.
  split.
  - intros names. unfold useStore, useActions.
    assert (H : useContext createActions useLocalStore
                  (map Component names) = None).
    { induction names as [|name names IH]; [reflexivity | exact IH]. }
    rewrite H. split; reflexivity.
  - intros names s a outer. unfold useStore, useActions.
    assert (H : useContext createActions useLocalStore
                  (map Component names ++ StoreProviderOf s a :: outer)
                = Some (StoreProvider createActions useLocalStore s a)).
    { induction names as [|name names IH]; [reflexivity | exact IH]. }
    rewrite H. split; reflexivity.
Qed.

(** ** The promises of the two fetches *)

(** The errors of the calls are caught inside the methods: the promise of
    [fetchInfo] and that of [fetchBalances] always resolve. *)
Lemma fetches_never_reject (api : LndApi) (others : list (World -> World))
    (w : World) :
  snd (run fetchInfo api others w) = Resolved tt
  /\ snd (run fetchBalances api others w) = Resolved tt.
Proof.
  unfold fetchInfo, fetchBalances. simpl. split.
  - destruct (api GetInfo), others; reflexivity.
  - destruct (api ChannelBalance); simpl.
    + destruct (api WalletBalance), others as [|o1 [|o2 others]]; reflexivity.
    + destruct others; reflexivity.
Qed.

(** * Further properties of the node store *)

(** ** The two fetches *)

(** When [getInfo] rejects, [fetchInfo] writes nothing to the store: it ends
    in the state made by its first log entry and by whatever ran while it was
    suspended, with one [handleError] call added; with nothing else running
    the node store is as before the call. *)
Theorem fetchInfo_rejected (api : LndApi) (e : JS.Error) :
  api GetInfo = Rejected e ->
  (forall others w,
     fst (run fetchInfo api others w)
     = handleError e "Unable to fetch node info"
         (run_others 1 others (log_info "fetching node info" NoData w)))
  /\ (forall w, node (fst (run fetchInfo api [] w)) = node w).
Proof.
  intros H. split; intros; unfold fetchInfo; simpl; rewrite H;
    [destruct others as [|o1 others]|]; reflexivity.
Qed.

Lemma fetchInfo_rejected_witness :
  (forall others w,
     fst (run fetchInfo
            (lnd_replies (Rejected "unavailable") (Rejected "unused") (Rejected "unused"))
            others w)
     = handleError "unavailable" "Unable to fetch node info"
         (run_others 1 others (log_info "fetching node info" NoData w)))
  /\ (forall w,
        node (fst (run fetchInfo
                     (lnd_replies (Rejected "unavailable") (Rejected "unused")
                        (Rejected "unused")) [] w))
        = node w).
Proof.
  exact (fetchInfo_rejected
           (lnd_replies (Rejected "unavailable") (Rejected "unused") (Rejected "unused"))
           "unavailable" eq_refl).
Defined.

(** When both calls of [fetchBalances] resolve, the wallet ends with exactly
    the two balances of the responses, whatever it held before and whatever
    ran while the method was suspended; the other fields of the store are
    those left by what ran in between. *)
Theorem fetchBalances_resolved (api : LndApi) (offChain : ChannelBalanceResponse)
    (onChain : WalletBalanceResponse) (others : list (World -> World)) (w : World) :
  api ChannelBalance = Resolved offChain ->
  api WalletBalance = Resolved onChain ->
  let before := run_others 2 others (log_info "fetching node balances" NoData w) in
  let after := fst (run fetchBalances api others w) in
  wallet (node after) = mkWallet (balance offChain) (totalBalance onChain)
  /\ _knownTxns (node after) = _knownTxns (node before)
  /\ pubkey (node after) = pubkey (node before)
  /\ alias (node after) = alias (node before)
  /\ url (node after) = url (node before)
  /\ chain (node after) = chain (node before)
  /\ network (node after) = network (node before)
  /\ uiStore after = uiStore before
  /\ clipboard after = clipboard before.
Proof.
  intros H1 H2. cbv zeta. unfold fetchBalances. simpl. rewrite H1. simpl.
  destruct others as [|o1 [|o2 others]]; simpl; rewrite H2; repeat split.
Qed.

Lemma fetchBalances_resolved_witness :
  wallet (node (fst (run fetchBalances
    (lnd_replies (Rejected "unused") (Resolved (mkChannelBalanceResponse 100))
       (Resolved (mkWalletBalanceResponse 2500)))
    [onTransaction (mkTransaction "a1" 500); onTransaction (mkTransaction "b2" 9)]
    (mkWorld new_NodeStore [] [] []))))
  = mkWallet 100 2500
  /\ _knownTxns (node (fst (run fetchBalances
       (lnd_replies (Rejected "unused") (Resolved (mkChannelBalanceResponse 100))
          (Resolved (mkWalletBalanceResponse 2500)))
       [onTransaction (mkTransaction "a1" 500); onTransaction (mkTransaction "b2" 9)]
       (mkWorld new_NodeStore [] [] []))))
     = ["a1"; "b2"].
Proof.
  pose proof (fetchBalances_resolved
    (lnd_replies (Rejected "unused") (Resolved (mkChannelBalanceResponse 100))
       (Resolved (mkWalletBalanceResponse 2500)))
    (mkChannelBalanceResponse 100) (mkWalletBalanceResponse 2500)
    [onTransaction (mkTransaction "a1" 500); onTransaction (mkTransaction "b2" 9)]
    (mkWorld new_NodeStore [] [] []) eq_refl eq_refl) as H.
  cbv zeta in H. destruct H as [Hwallet [Hknown _]].
  split; [exact Hwallet | exact Hknown].
Defined.

(** ** The pieces of a fetch *)

Lemma run_segments_app segs1 segs2 w :
  run_segments (segs1 ++ segs2) w = run_segments segs2 (run_segments segs1 w).
Proof. unfold run_segments. apply fold_left_app. Qed.

(** A fetch that runs while other pieces of the store's methods run during
    its suspensions acts as the sequence of its own pieces with those in
    between: the pieces of the first suspension come after the first log
    entry, and the batch or the error handler comes after the pieces of the
    last suspension, as one piece. *)
Theorem fetches_as_segments (api : LndApi) (others : list (list Segment))
    (w : World) :
  fst (run fetchInfo api (map run_segments others) w)
  = run_segments (fetchInfo_trace api others) w
  /\ fst (run fetchBalances api (map run_segments others) w)
     = run_segments (fetchBalances_trace api others) w.
Proof.
  unfold fetchInfo, fetchBalances, fetchInfo_trace, fetchBalances_trace.
  split.
  - change (run_segments (FetchInfoStart :: ?l) w)
      with (run_segments l (log_info "fetching node info" NoData w)).
    rewrite run_segments_app. simpl.
    destruct others as [|o1 others]; simpl; destruct (api GetInfo); reflexivity.
  - change (run_segments (FetchBalancesStart :: ?l) w)
      with (run_segments l (log_info "fetching node balances" NoData w)).
    rewrite run_segments_app. simpl.
    destruct (api ChannelBalance) as [offChain|e]; simpl.
    + rewrite run_segments_app.
      destruct others as [|o1 [|o2 others]]; simpl;
        destruct (api WalletBalance); reflexivity.
    + destruct others as [|o1 others]; reflexivity.
Qed.

(** ** The known hashes *)

Lemma includes_app arr1 arr2 x :
  JS.includes (arr1 ++ arr2) x = JS.includes arr1 x || JS.includes arr2 x.
Proof.
  induction arr1 as [|y arr1 IH]; simpl; [reflexivity|].
  rewrite IH, orb_assoc. reflexivity.
Qed.

(** After [onTransaction tx] a hash is known exactly when it was known before
    or is the hash of [tx]. *)
Theorem onTransaction_known (tx : Transaction) (h : string) (w : World) :
  JS.includes (_knownTxns (node (onTransaction tx w))) h
  = JS.includes (_knownTxns (node w)) h || String.eqb (txHash tx) h.
Proof.
  rewrite node_onTransaction.
  destruct (JS.includes (_knownTxns (node w)) (txHash tx)) eqn:E.
  - destruct (String.eqb_spec (txHash tx) h) as [Heq|Hne].
    + rewrite <- Heq, E. reflexivity.
    + rewrite orb_false_r. reflexivity.
  - simpl. unfold JS.push. rewrite includes_app. simpl.
    rewrite orb_false_r. reflexivity.
Qed.

Lemma knownTxns_getInfoContinuation info w :
  _knownTxns (node (getInfoContinuation info w)) = _knownTxns (node w).
Proof.
  unfold getInfoContinuation.
  destruct (chainsList info) as [[|c cs]|], (urisList info) as [[|u us]|];
    reflexivity.
Qed.

(** What one piece does to the list of known hashes: only a call of
    [onTransaction] with a new hash changes it, by adding the hash at the
    end. *)
Lemma knownTxns_run_segment s w :
  _knownTxns (node (run_segment s w))
  = match s with
    | TransactionCall tx =>
        if JS.includes (_knownTxns (node w)) (txHash tx) then _knownTxns (node w)
        else JS.push (_knownTxns (node w)) (txHash tx)
    | _ => _knownTxns (node w)
    end.
Proof.
  destruct s; simpl; try reflexivity.
  - rewrite node_onTransaction.
    destruct (JS.includes (_knownTxns (node w)) (txHash tx)); reflexivity.
  - apply knownTxns_getInfoContinuation.
Qed.

(** Whatever the store does, the hashes it knew stay known, in their places:
    the list of known hashes after any sequence of pieces is the list before
    it with hashes added at the end. *)
Theorem knownTxns_only_grows (segs : list Segment) (w : World) :
  exists added,
    _knownTxns (node (run_segments segs w)) = (_knownTxns (node w) ++ added)%list.
Proof.
  revert w. induction segs as [|s segs IH]; intros w.
  - exists []. simpl. rewrite app_nil_r. reflexivity.
  - change (run_segments (s :: segs) w) with (run_segments segs (run_segment s w)).
    destruct (IH (run_segment s w)) as [added Hadded].
    rewrite Hadded, knownTxns_run_segment.
    destruct s; try (exists added; reflexivity).
    destruct (JS.includes (_knownTxns (node w)) (txHash tx)).
    + exists added. reflexivity.
    + exists (txHash tx :: added). unfold JS.push. rewrite <- app_assoc. reflexivity.
Qed.

(** The list of known hashes never holds a hash twice: no sequence of pieces
    of the store's methods breaks this. *)
Theorem knownTxns_NoDup (segs : list Segment) (w : World) :
  NoDup (_knownTxns (node w)) ->
  NoDup (_knownTxns (node (run_segments segs w))).
Proof.
  revert w. induction segs as [|s segs IH]; intros w Hnodup; [exact Hnodup|].
  change (run_segments (s :: segs) w) with (run_segments segs (run_segment s w)).
  apply IH. rewrite knownTxns_run_segment.
  destruct s; try exact Hnodup.
  destruct (JS.includes (_knownTxns (node w)) (txHash tx)) eqn:E; [exact Hnodup|].
  unfold JS.push. apply NoDup_app; [exact Hnodup | repeat constructor; simpl; tauto |].
  intros h Hin [Heq|[]]. subst h.
  apply includes_In in Hin. rewrite Hin in E. discriminate.
Qed.

Lemma knownTxns_NoDup_witness :
  NoDup (_knownTxns (node (run_segments
    [TransactionCall (mkTransaction "a1" 500); FetchBalancesStart;
     TransactionCall (mkTransaction "a1" 500);
     BalancesResolved (mkChannelBalanceResponse 100) (mkWalletBalanceResponse 2500);
     TransactionCall (mkTransaction "b2" 9)]
    (mkWorld new_NodeStore [] [] [])))).
Proof.
  apply (knownTxns_NoDup
    [TransactionCall (mkTransaction "a1" 500); FetchBalancesStart;
     TransactionCall (mkTransaction "a1" 500);
     BalancesResolved (mkChannelBalanceResponse 100) (mkWalletBalanceResponse 2500);
     TransactionCall (mkTransaction "b2" 9)]
    (mkWorld new_NodeStore [] [] [])).
  simpl. constructor.
Defined.

Lemma onTransaction_records tx w :
  JS.includes (_knownTxns (node (onTransaction tx w))) (txHash tx) = true.
Proof.
  rewrite node_onTransaction.
  destruct (JS.includes (_knownTxns (node w)) (txHash tx)) eqn:E; [exact E|].
  simpl. apply includes_push.
Qed.

Lemma known_stays_known segs : forall w h,
  JS.includes (_knownTxns (node w)) h = true ->
  JS.includes (_knownTxns (node (run_segments segs w))) h = true.
Proof.
  induction segs as [|s segs IH]; intros w h Hknown; [exact Hknown|].
  change (run_segments (s :: segs) w) with (run_segments segs (run_segment s w)).
  apply IH. rewrite knownTxns_run_segment.
  destruct s; try exact Hknown.
  destruct (JS.includes (_knownTxns (node w)) (txHash tx)); [exact Hknown|].
  unfold JS.push. rewrite includes_app, Hknown. reflexivity.
Qed.

(** A transaction the store has handled is never applied again: after
    [onTransaction tx] and anything else the store does, fetches included, a
    further [onTransaction tx] leaves the node store as it is. *)
Theorem onTransaction_replay (tx : Transaction) (segs : list Segment) (w : World) :
  node (onTransaction tx (run_segments segs (onTransaction tx w)))
  = node (run_segments segs (onTransaction tx w)).
Proof.
  rewrite node_onTransaction.
  rewrite (known_stays_known segs _ _ (onTransaction_records tx w)).
  reflexivity.
Qed.

(** ** Which piece writes which field *)

Lemma info_fields_run_segment s w :
  is_GetInfoResolved s = false ->
  pubkey (node (run_segment s w)) = pubkey (node w)
  /\ alias (node (run_segment s w)) = alias (node w)
  /\ url (node (run_segment s w)) = url (node w)
  /\ chain (node (run_segment s w)) = chain (node w)
  /\ network (node (run_segment s w)) = network (node w).
Proof.
  destruct s; simpl; intros H; try discriminate; try (repeat split; fail).
  rewrite node_onTransaction.
  destruct (JS.includes (_knownTxns (node w)) (txHash tx)); repeat split.
Qed.

(** The fields [pubkey], [alias], [url], [chain] and [network] are written by
    the batch of a resolved [fetchInfo] and by nothing else: a sequence of
    pieces without such a batch leaves all five as they were. *)
Theorem info_fields_kept (segs : list Segment) (w : World) :
  forallb (fun s => negb (is_GetInfoResolved s)) segs = true ->
  pubkey (node (run_segments segs w)) = pubkey (node w)
  /\ alias (node (run_segments segs w)) = alias (node w)
  /\ url (node (run_segments segs w)) = url (node w)
  /\ chain (node (run_segments segs w)) = chain (node w)
  /\ network (node (run_segments segs w)) = network (node w).
Proof.
  revert w. induction segs as [|s segs IH]; intros w Hsegs; [repeat split|].
  simpl in Hsegs. apply andb_true_iff in Hsegs. destruct Hsegs as [Hs Hsegs].
  apply negb_true_iff in Hs.
  change (run_segments (s :: segs) w) with (run_segments segs (run_segment s w)).
  destruct (IH (run_segment s w) Hsegs) as [H1 [H2 [H3 [H4 H5]]]].
  destruct (info_fields_run_segment s w Hs) as [K1 [K2 [K3 [K4 K5]]]].
  rewrite H1, H2, H3, H4, H5. repeat split; assumption.
Qed.

Lemma info_fields_kept_witness :
  pubkey (node (run_segments
    [TransactionCall (mkTransaction "a1" 500); CopyCall KeyUrl; FetchInfoStart;
     GetInfoRejected "unavailable";
     BalancesResolved (mkChannelBalanceResponse 100) (mkWalletBalanceResponse 2500)]
    (mkWorld (set_url "abc@host:1" (set_pubkey (Some "02abc") new_NodeStore)) [] [] [])))
  = Some "02abc"
  /\ url (node (run_segments
    [TransactionCall (mkTransaction "a1" 500); CopyCall KeyUrl; FetchInfoStart;
     GetInfoRejected "unavailable";
     BalancesResolved (mkChannelBalanceResponse 100) (mkWalletBalanceResponse 2500)]
    (mkWorld (set_url "abc@host:1" (set_pubkey (Some "02abc") new_NodeStore)) [] [] [])))
  = "abc@host:1".
Proof.
  pose proof (info_fields_kept
    [TransactionCall (mkTransaction "a1" 500); CopyCall KeyUrl; FetchInfoStart;
     GetInfoRejected "unavailable";
     BalancesResolved (mkChannelBalanceResponse 100) (mkWalletBalanceResponse 2500)]
    (mkWorld (set_url "abc@host:1" (set_pubkey (Some "02abc") new_NodeStore)) [] [] [])
    eq_refl) as H.
  destruct H as [H1 [_ [H3 _]]]. split; [exact H1 | exact H3].
Defined.

Lemma wallet_run_segment s w :
  wallet (node (run_segment s w))
  = match s with
    | TransactionCall tx =>
        if JS.includes (_knownTxns (node w)) (txHash tx) then wallet (node w)
        else set_walletBalance (walletBalance (wallet (node w)) + amount tx)
               (wallet (node w))
    | BalancesResolved offChain onChain =>
        mkWallet (balance offChain) (totalBalance onChain)
    | _ => wallet (node w)
    end.
Proof.
  destruct s; simpl; try reflexivity.
  - rewrite node_onTransaction.
    destruct (JS.includes (_knownTxns (node w)) (txHash tx)); reflexivity.
  - unfold getInfoContinuation.
    destruct (chainsList info) as [[|c cs]|], (urisList info) as [[|u us]|];
      reflexivity.
Qed.

(** The wallet is written by the batch of a resolved [fetchBalances] and by
    [onTransaction], and by nothing else: without such a batch
    [channelBalance] stays as it was, and without calls of [onTransaction]
    either the whole wallet does. *)
Theorem wallet_kept (segs : list Segment) (w : World) :
  forallb (fun s => negb (is_BalancesResolved s)) segs = true ->
  channelBalance (wallet (node (run_segments segs w)))
  = channelBalance (wallet (node w))
  /\ (forallb (fun s => negb (is_TransactionCall s)) segs = true ->
      wallet (node (run_segments segs w)) = wallet (node w)).
Proof.
  revert w. induction segs as [|s segs IH]; intros w Hsegs; [split; reflexivity|].
  simpl in Hsegs. apply andb_true_iff in Hsegs. destruct Hsegs as [Hs Hsegs].
  apply negb_true_iff in Hs.
  change (run_segments (s :: segs) w) with (run_segments segs (run_segment s w)).
  destruct (IH (run_segment s w) Hsegs) as [Hchannel Hwallet].
  split.
  - rewrite Hchannel, wallet_run_segment.
    destruct s; try reflexivity; try discriminate.
    destruct (JS.includes (_knownTxns (node w)) (txHash tx)); reflexivity.
  - intros Htx. simpl in Htx. apply andb_true_iff in Htx. destruct Htx as [Ht Htx].
    apply negb_true_iff in Ht.
    rewrite (Hwallet Htx), wallet_run_segment.
    destruct s; try reflexivity; discriminate.
Qed.

Lemma wallet_kept_witness :
  channelBalance (wallet (node (run_segments
    [TransactionCall (mkTransaction "a1" 500); FetchBalancesStart;
     BalancesRejected "wallet locked";
     GetInfoResolved (mkGetInfoResponse (Some "02abc") (Some "alice") None None)]
    (mkWorld (set_wallet (mkWallet 100 2500) new_NodeStore) [] [] []))))
  = 100
  /\ wallet (node (run_segments
       [CopyCall KeyAlias; FetchBalancesStart; BalancesRejected "wallet locked";
        GetInfoResolved (mkGetInfoResponse (Some "02abc") (Some "alice") None None)]
       (mkWorld (set_wallet (mkWallet 100 2500) new_NodeStore) [] [] [])))
     = mkWallet 100 2500.
Proof.
  split.
  - exact (proj1 (wallet_kept
      [TransactionCall (mkTransaction "a1" 500); FetchBalancesStart;
       BalancesRejected "wallet locked";
       GetInfoResolved (mkGetInfoResponse (Some "02abc") (Some "alice") None None)]
      (mkWorld (set_wallet (mkWallet 100 2500) new_NodeStore) [] [] []) eq_refl)).
  - exact (proj2 (wallet_kept
      [CopyCall KeyAlias; FetchBalancesStart; BalancesRejected "wallet locked";
       GetInfoResolved (mkGetInfoResponse (Some "02abc") (Some "alice") None None)]
      (mkWorld (set_wallet (mkWallet 100 2500) new_NodeStore) [] [] []) eq_refl)
      eq_refl).
Defined.

(** ** Fetched balances and later transactions *)

(** After the batch of a resolved [fetchBalances], transactions with new,
    pairwise distinct hashes add up on the fetched total: what the wallet
    balance was before the fetch no longer counts. *)
Theorem transactions_after_fetch (offChain : ChannelBalanceResponse)
    (onChain : WalletBalanceResponse) (txs : list Transaction) (w : World) :
  NoDup (map txHash txs) ->
  (forall tx, In tx txs -> ~ In (txHash tx) (_knownTxns (node w))) ->
  wallet (node (onTransactions txs (fetchBalancesContinuation offChain onChain w)))
  = mkWallet (balance offChain) (totalBalance onChain + sum_amounts txs).
Proof.
  intros Hnodup Hnew.
  destruct (onTransactions_fresh txs (fetchBalancesContinuation offChain onChain w)
              Hnodup Hnew) as [Hbal _].
  assert (Hchannel : forall l w',
            channelBalance (wallet (node (onTransactions l w')))
            = channelBalance (wallet (node w'))).
  { induction l as [|tx l IH]; intros w'; [reflexivity|].
    change (onTransactions (tx :: l) w') with (onTransactions l (onTransaction tx w')).
    rewrite IH, node_onTransaction.
    destruct (JS.includes (_knownTxns (node w')) (txHash tx)); reflexivity. }
  specialize (Hchannel txs (fetchBalancesContinuation offChain onChain w)).
  destruct (wallet (node (onTransactions txs (fetchBalancesContinuation offChain onChain w))))
    as [cb wb].
  simpl in Hbal, Hchannel. rewrite Hbal, Hchannel. reflexivity.
Qed.

Lemma transactions_after_fetch_witness :
  wallet (node (onTransactions [mkTransaction "a1" 500; mkTransaction "b2" (-200)]
    (fetchBalancesContinuation (mkChannelBalanceResponse 100)
       (mkWalletBalanceResponse 2500)
       (mkWorld (set_wallet (mkWallet 7 7) new_NodeStore) [] [] []))))
  = mkWallet 100 (2500 + sum_amounts [mkTransaction "a1" 500; mkTransaction "b2" (-200)]).
Proof.
  apply (transactions_after_fetch (mkChannelBalanceResponse 100)
           (mkWalletBalanceResponse 2500)
           [mkTransaction "a1" 500; mkTransaction "b2" (-200)]
           (mkWorld (set_wallet (mkWallet 7 7) new_NodeStore) [] [] [])).
  - simpl. repeat constructor; simpl; intuition discriminate.
  - simpl. intros tx _ [].
Defined.

(** ** When the url has a label *)

(** A string either has no [sep], or is a piece free of [sep], then [sep],
    then the rest. *)
Lemma first_sep sep s :
  JS.includes_char sep s = false
  \/ exists p rest, JS.includes_char sep p = false /\ s = p ++ String sep rest.
Proof.
  induction s as [|c s IH]; [left; reflexivity|].
  simpl. destruct (Ascii.eqb_spec c sep) as [Heq|Hne].
  - right. exists "", s. subst c. split; reflexivity.
  - destruct IH as [Hnone | [p [rest [Hp Hs]]]].
    + left. exact Hnone.
    + right. exists (String c p), rest. simpl.
      destruct (Ascii.eqb_spec c sep) as [Heq|_]; [contradiction|].
      rewrite Hp, Hs. split; reflexivity.
Qed.

Lemma app_sep_not_empty p sep rest : p ++ String sep rest <> "".
Proof. destruct p; discriminate. Qed.

Lemma truthy_not_empty s : JS.truthy s = true <-> s <> "".
Proof. destruct s; simpl; split; congruence. Qed.

(** [urlLabel] is not empty exactly when the url has an ['@'] and the text
    after the first ['@'], up to the next ['@'] or the end, is not empty;
    the text before the first ['@'] may be empty. *)
Theorem urlLabel_not_empty (ellipseInside : string -> string) (n : NodeStore) :
  urlLabel ellipseInside n <> ""
  <-> exists p h,
        JS.includes_char "@" p = false
        /\ JS.includes_char "@" h = false
        /\ h <> ""
        /\ (url n = p ++ "@" ++ h \/ exists rest, url n = p ++ "@" ++ h ++ "@" ++ rest).
Proof.
  split.
  - intros Hlabel.
    destruct (first_sep "@" (url n)) as [Hnone | [p [r [Hp Hurl]]]].
    + exfalso. apply Hlabel. unfold urlLabel.
      rewrite (split_without_sep _ _ Hnone). simpl.
      destruct (JS.truthy (url n)); reflexivity.
    + assert (Htruthy : JS.truthy (url n) = true).
      { rewrite Hurl. apply truthy_app_sep. }
      destruct (first_sep "@" r) as [Hr | [h [rest [Hh Hr]]]].
      * exists p, r. split; [exact Hp|]. split; [exact Hr|].
        split; [|left; exact Hurl].
        intros Hempty. apply Hlabel.
        rewrite (urlLabel_pieces ellipseInside n p r []); [|rewrite Hurl|exact Htruthy].
        -- rewrite Hempty. reflexivity.
        -- rewrite (split_at_first_sep _ _ _ Hp), (split_without_sep _ _ Hr). reflexivity.
      * exists p, h. split; [exact Hp|]. split; [exact Hh|].
        split; [|right; exists rest; rewrite Hurl, Hr; reflexivity].
        intros Hempty. apply Hlabel.
        rewrite (urlLabel_pieces ellipseInside n p h (JS.split "@" rest));
          [|rewrite Hurl, Hr|exact Htruthy].
        -- rewrite Hempty. reflexivity.
        -- rewrite (split_at_first_sep _ _ _ Hp), (split_at_first_sep _ _ _ Hh).
           reflexivity.
  - intros [p [h [Hp [Hh [Hne Hurl]]]]].
    apply truthy_not_empty in Hne.
    assert (Hlabel : urlLabel ellipseInside n = ellipseInside p ++ "@" ++ h).
    { destruct Hurl as [Hurl | [rest Hurl]].
      - rewrite (urlLabel_pieces ellipseInside n p h []).
        + rewrite Hne. reflexivity.
        + rewrite Hurl. change (p ++ "@" ++ h) with (p ++ String "@" h).
          rewrite (split_at_first_sep _ _ _ Hp), (split_without_sep _ _ Hh). reflexivity.
        + rewrite Hurl. apply truthy_app_sep.
      - rewrite (urlLabel_pieces ellipseInside n p h (JS.split "@" rest)).
        + rewrite Hne. reflexivity.
        + rewrite Hurl.
          change (p ++ "@" ++ h ++ "@" ++ rest)
            with (p ++ String "@" (h ++ String "@" rest)).
          rewrite (split_at_first_sep _ _ _ Hp), (split_at_first_sep _ _ _ Hh).
          reflexivity.
        + rewrite Hurl. apply truthy_app_sep. }
    rewrite Hlabel. apply app_sep_not_empty.
Qed.

Lemma urlLabel_not_empty_witness :
  urlLabel (fun s => s) (set_url "@host:1" new_NodeStore) <> "".
Proof.
  apply (proj2 (urlLabel_not_empty (fun s => s) (set_url "@host:1" new_NodeStore))).
  exists "", "host:1". repeat split; [discriminate | left; reflexivity].
Defined.

(** * Further properties of the store context *)

Lemma useContext_without_provider {Store StoreActions : Type}
    (createActions : Store -> StoreActions) (useLocalStore : Store -> Store)
    (ancestors : list (Ancestor Store StoreActions)) :
  has_provider ancestors = false <->
  useContext createActions useLocalStore ancestors = None.
Proof.
  induction ancestors as [|[s a|name] ancestors IH]; simpl.
  - tauto.
  - split; discriminate.
  - exact IH.
Qed.

(** [useStore] throws exactly when no ancestor is a [StoreProvider], and so
    does [useActions]: in any component the two hooks both throw or both
    return. *)
Theorem hooks_throw_iff_no_provider (Store StoreActions : Type)
    (createActions : Store -> StoreActions) (useLocalStore : Store -> Store)
    (ancestors : list (Ancestor Store StoreActions)) :
  (useStore createActions useLocalStore ancestors
   = Throws "useStore must be used within a StoreProvider."
   <-> has_provider ancestors = false)
  /\ (useActions createActions useLocalStore ancestors
      = Throws "useActions must be used within a StoreProvider."
      <-> has_provider ancestors = false)
  /\ ((exists e, useStore createActions useLocalStore ancestors = Throws e)
      <-> (exists e, useActions createActions useLocalStore ancestors = Throws e)).
Proof.
  rewrite (useContext_without_provider createActions useLocalStore).
  unfold useStore, useActions.
  destruct (useContext createActions useLocalStore ancestors) as [data|].
  - repeat split; try discriminate; intros [e He]; discriminate.
  - repeat split; intros _; eexists; reflexivity.
Qed.

Lemma hooks_throw_iff_no_provider_witness :
  useStore (fun s : nat => s + 1)%nat (fun s : nat => s)
    [Component "Layout"; Component "App"]
  = Throws "useStore must be used within a StoreProvider."
  /\ useActions (fun s : nat => s + 1)%nat (fun s : nat => s)
       [Component "Layout"; Component "App"]
     = Throws "useActions must be used within a StoreProvider.".
Proof.
  split.
  - exact (proj2 (proj1 (hooks_throw_iff_no_provider nat nat (fun s => s + 1)%nat
             (fun s => s) [Component "Layout"; Component "App"])) eq_refl).
  - exact (proj2 (proj1 (proj2 (hooks_throw_iff_no_provider nat nat
             (fun s => s + 1)%nat (fun s => s) [Component "Layout"; Component "App"])))
             eq_refl).
Defined.

(** Under the decorator of the Storybook configuration the hooks never throw,
    whatever the story renders; in a story without a [StoreProvider] of its
    own they return the store given to the decorator, as [useLocalStore]
    wraps it, and the dummy actions, not actions made by [createActions]. *)
Theorem storybook_hooks (Store StoreActions : Type)
    (createActions : Store -> StoreActions) (useLocalStore : Store -> Store)
    (store : Store) (actions : StoreActions)
    (story outer : list (Ancestor Store StoreActions)) :
  (exists s a,
     useStore createActions useLocalStore (decorated store actions story outer)
     = Returns s
     /\ useActions createActions useLocalStore (decorated store actions story outer)
        = Returns a)
  /\ (has_provider story = false ->
      useStore createActions useLocalStore (decorated store actions story outer)
      = Returns (useLocalStore store)
      /\ useActions createActions useLocalStore (decorated store actions story outer)
         = Returns actions).
Proof.
  unfold decorated, useStore, useActions.
  induction story as [|[s a|name] story IH]; simpl.
  - split; [eexists; eexists|intros _]; split; reflexivity.
  - split; [eexists; eexists; split; reflexivity | discriminate].
  - exact IH.
Qed.

Lemma storybook_hooks_witness :
  useStore (fun s : nat => [s]) (fun s : nat => s)
    (decorated 7%nat [1%nat; 2%nat] [Component "Tile"; Component "NodeStatus"] [])
  = Returns 7%nat
  /\ useActions (fun s : nat => [s]) (fun s : nat => s)
       (decorated 7%nat [1%nat; 2%nat] [Component "Tile"; Component "NodeStatus"] [])
     = Returns [1%nat; 2%nat].
Proof.
  exact (proj2 (storybook_hooks nat (list nat) (fun s => [s]) (fun s => s) 7%nat
                  [1%nat; 2%nat] [Component "Tile"; Component "NodeStatus"] [])
           eq_refl).
Defined.

(** * The debounced refresh *)







